(** * firebird-matic-sdk: tokens, currency equality and the on-chain fetcher

    A shallow embedding of [src/entities/token.ts] (class [Token],
    [currencyEquals], the exported token constants) and of the fetcher
    module ([TOKEN_DECIMALS_CACHE], [Fetcher.fetchTokenData],
    [Fetcher.fetchPairData]).

    Modelling choices.
    - JavaScript objects live in a heap and program values of class type are
      references into it, so that [===] on objects is reference identity.
    - Strings are byte strings; addresses are ASCII, where JavaScript's
      [toLowerCase] and [<] agree with the byte-wise functions used here.
    - Numbers that the code uses as integers (decimals, reserves, ratioA,
      swapFee) are [Z].
    - Exceptions and rejected promises are the [Err] case of [Result];
      stateful code runs in the monad [M] over a [World] holding the heap,
      the module-level decimals cache and the log of live provider calls.
    - Code of the repository that is imported but not part of the two source
      files ([validateAndParseAddress], [Pair.getAddress], the [TokenAmount]
      and [Pair] constructors) is taken as a parameter: the fields of the
      class [Deps]. *)

From stdpp Require Import base option list gmap strings pretty.
From Stdlib Require Import ZArith Ascii String.

Local Open Scope string_scope.

(** ** Errors and results *)

Inductive Error : Type :=
  | InvariantFailed (msg : string)   (* tiny-invariant: invariant(false, msg) *)
  | JsError (msg : string)           (* throw new Error(msg) *)
  | TypeError (msg : string)         (* a reference used at the wrong class *)
  | Rejected (reason : string).      (* a provider call that threw or rejected *)

Inductive Result (A : Type) : Type :=
  | Ok (a : A)
  | Err (e : Error).
Arguments Ok {A} a.
Arguments Err {A} e.

Global Instance Result_ret : MRet Result := @Ok.
Global Instance Result_bind : MBind Result := λ A B f r,
  match r with Ok a => f a | Err e => Err e end.

Definition invariant (condition : bool) (msg : string) : Result unit :=
  if condition then Ok tt else Err (InvariantFailed msg).

Definition is_Ok {A} (r : Result A) : Prop := ∃ a, r = Ok a.

(** ** Strings *)

(** [String.prototype.toLowerCase] on ASCII: the letters A-Z move to a-z. *)
Definition lower_ascii (c : ascii) : ascii :=
  let n := N_of_ascii c in
  if ((65 <=? n) && (n <=? 90))%N then ascii_of_N (n + 32) else c.

Fixpoint toLowerCase (s : string) : string :=
  match s with
  | EmptyString => EmptyString
  | String c s' => String (lower_ascii c) (toLowerCase s')
  end.

(** [s1 < s2] on JavaScript strings: lexicographic on code units. *)
Definition str_lt (s1 s2 : string) : bool := String.ltb s1 s2.

(** [sub] occurs in [s]. *)
Definition contains (s sub : string) : Prop :=
  ∃ pre post, s = pre ++ sub ++ post.

(** ** Chain identifiers

    The enum [ChainId] is declared in [constants], which is imported but not
    part of the sources; the members below are the ones the sources name.
    A numeric TypeScript enum gives its members distinct values. *)

Inductive ChainId : Type := MATIC | MATICTESTNET | BSC.

Global Instance ChainId_eq_dec : EqDecision ChainId.
Proof. solve_decision. Defined.

Definition ChainId_code (c : ChainId) : nat :=
  match c with MATIC => 0 | MATICTESTNET => 1 | BSC => 2 end.

Global Instance ChainId_countable : Countable ChainId.
Proof.
  refine (inj_countable' ChainId_code
            (λ n, match n with 0 => MATIC | 1 => MATICTESTNET | _ => BSC end) _).
  by intros [].
Defined.

(** ** Objects and the heap *)

(** Modelled from the spec: the class [Currency] ([entities/currency], not
    part of the sources) carries the decimals, an optional symbol and an
    optional name; the spec's data model bounds decimals to 0-255, which the
    constructor [Currency_new] below checks. *)
Record Currency : Type := mkCurrency {
  decimals : Z;
  symbol : option string;
  name : option string
}.

Record Token : Type := mkToken {
  currency : Currency;       (* the fields set by super(decimals, symbol, name) *)
  chainId : ChainId;
  address : string
}.

(** An instance of [Currency] proper (a native asset) or of its subclass
    [Token]; [instanceof Token] tests the constructor. *)
Inductive object : Type :=
  | CurrencyObj (c : Currency)
  | TokenObj (t : Token).

Definition loc := nat.

Definition instanceof_Token (o : object) : bool :=
  match o with TokenObj _ => true | CurrencyObj _ => false end.

(** Dereference at any class, and at class [Token]. *)
Definition deref (h : list object) (l : loc) : Result object :=
  match h !! l with
  | Some o => Ok o
  | None => Err (TypeError "dangling reference")
  end.

Definition deref_Token (h : list object) (l : loc) : Result Token :=
  o ← deref h l;
  match o with
  | TokenObj t => Ok t
  | CurrencyObj _ => Err (TypeError "not a Token")
  end.

(** ** Token.equals, Token.sortsBefore, currencyEquals *)

Definition Token_equals (h : list object) (this other : loc) : Result bool :=
  a ← deref_Token h this;
  (* short circuit on reference equality *)
  if bool_decide (this = other) then Ok true
  else
    b ← deref_Token h other;
    Ok (bool_decide (chainId a = chainId b) && bool_decide (address a = address b)).

Definition Token_sortsBefore (h : list object) (this other : loc) : Result bool :=
  a ← deref_Token h this;
  b ← deref_Token h other;
  _ ← invariant (bool_decide (chainId a = chainId b)) "CHAIN_IDS";
  _ ← invariant (negb (bool_decide (address a = address b))) "ADDRESSES";
  Ok (str_lt (toLowerCase (address a)) (toLowerCase (address b))).

Definition currencyEquals (h : list object) (currencyA currencyB : loc) : Result bool :=
  a ← deref h currencyA;
  b ← deref h currencyB;
  if instanceof_Token a && instanceof_Token b then Token_equals h currencyA currencyB
  else if instanceof_Token a then Ok false
  else if instanceof_Token b then Ok false
  else Ok (bool_decide (currencyA = currencyB)).

(** ** The world and the monad of stateful code *)

(** A live lookup made through an ethers [Contract]. *)
Inductive Call : Type :=
  | CallDecimals (address : string)       (* ERC20.decimals() at [address] *)
  | CallGetReserves (address : string).   (* IUniswapV2Pair.getReserves() at [address] *)

Record World : Type := mkWorld {
  heap : list object;
  TOKEN_DECIMALS_CACHE : gmap ChainId (gmap string Z);
  calls : list Call                        (* most recent call last *)
}.

Definition M (A : Type) : Type := World → Result A * World.

Global Instance M_ret : MRet M := λ A a w, (Ok a, w).
Global Instance M_bind : MBind M := λ A B f m w,
  match m w with
  | (Ok a, w') => f a w'
  | (Err e, w') => (Err e, w')
  end.

Definition lift {A} (r : Result A) : M A := λ w, (r, w).
Definition throw {A} (e : Error) : M A := λ w, (Err e, w).
Definition try_catch {A} (body : M A) (handler : Error → M A) : M A := λ w,
  match body w with
  | (Ok a, w') => (Ok a, w')
  | (Err e, w') => handler e w'
  end.

Definition get_heap : M (list object) := λ w, (Ok (heap w), w).
Definition alloc (o : object) : M loc := λ w,
  (Ok (List.length (heap w)),
   mkWorld (heap w ++ [o])%list (TOKEN_DECIMALS_CACHE w) (calls w)).
Definition get_cache : M (gmap ChainId (gmap string Z)) := λ w,
  (Ok (TOKEN_DECIMALS_CACHE w), w).
Definition set_cache (c : gmap ChainId (gmap string Z)) : M unit := λ w,
  (Ok tt, mkWorld (heap w) c (calls w)).
Definition log_call (c : Call) (w : World) : World :=
  mkWorld (heap w) (TOKEN_DECIMALS_CACHE w) (calls w ++ [c])%list.

(** What a provider answers to the two contract calls the fetcher makes. *)
Record Provider : Type := mkProvider {
  erc20_decimals : string → Result Z;
  pair_getReserves : string → Result (Z * Z)
}.

Definition call_decimals (provider : Provider) (address : string) : M Z := λ w,
  (erc20_decimals provider address, log_call (CallDecimals address) w).
Definition call_getReserves (provider : Provider) (address : string) : M (Z * Z) := λ w,
  (pair_getReserves provider address, log_call (CallGetReserves address) w).

(** ** Imported code that is not part of the sources *)

Class Deps : Type := {
  (* utils: the checksummed form of a valid address, or a throw *)
  validateAndParseAddress : string → Result string;
  (* entities/pair: Pair.getAddress(tokenA, tokenB, ratioA, swapFee) *)
  Pair_getAddress : list object → loc → loc → Z → Z → Result string;
  (* entities/fractions/tokenAmount: new TokenAmount(token, amount) *)
  TokenAmount : Type;
  TokenAmount_new : list object → loc → Z → Result TokenAmount;
  (* entities/pair: new Pair(tokenAmountA, tokenAmountB) *)
  Pair : Type;
  Pair_new : list object → TokenAmount → TokenAmount → Result Pair
}.

(** Modelled from the spec: a token's address is a "20-byte checksummed
    identifier", the output of [validateAndParseAddress] (utils, not part of
    the sources). The checksummed spelling is determined by the 20 bytes, so
    two checksummed addresses that agree up to letter case are the same
    string. *)
Definition checksummed `{Deps} : Prop :=
  ∀ s1 s2 a1 a2,
    validateAndParseAddress s1 = Ok a1 →
    validateAndParseAddress s2 = Ok a2 →
    toLowerCase a1 = toLowerCase a2 → a1 = a2.

(** ** Constructors *)

(** Modelled from the spec: the constructor of [Currency] (not part of the
    sources) stores its arguments and rejects decimals outside 0-255. *)
Definition Currency_new (decimals : Z) (symbol name : option string) : Result Currency :=
  _ ← invariant (bool_decide (0 ≤ decimals ≤ 255)%Z) "DECIMALS";
  Ok (mkCurrency decimals symbol name).

Definition Token_new `{Deps} (chainId : ChainId) (address : string) (decimals : Z)
    (symbol name : option string) : M loc :=
  super ← lift (Currency_new decimals symbol name);
  parsed ← lift (validateAndParseAddress address);
  alloc (TokenObj (mkToken super chainId parsed)).

(** ** The exported token constants *)

Record Exports : Type := mkExports {
  WMATIC : gmap ChainId loc;
  WETH : gmap ChainId loc;
  BNB : gmap ChainId loc;
  HOPE : gmap ChainId loc
}.

Definition token_module `{Deps} : M Exports :=
  wmatic_matic ← Token_new MATIC "0x0d500b1d8e8ef31e21c99d1db9a6444d3adf1270" 18
                   (Some "WMATIC") (Some "Wrapped MATIC");
  wmatic_testnet ← Token_new MATICTESTNET "0x9c3C9283D3e44854697Cd22D3Faa240Cfb032889" 18
                   (Some "WMATIC") (Some "Wrapped MATIC");
  weth_matic ← Token_new MATIC "0x7ceB23fD6bC0adD59E62ac25578270cFf1b9f619" 18
                   (Some "WETH") (Some "Wrapped ETH");
  bnb_bsc ← Token_new BSC "0xbb4CdB9CBd36B01bD1cBaEBF2De08d9173bc095c" 18
                   (Some "WBNB") (Some "Wrapped BNB");
  hope_matic ← Token_new MATIC "0xd78c475133731cd54dadcb430f7aae4f03c1e660" 18
                   (Some "HOPE") (Some "Firebird HOPE");
  hope_bsc ← Token_new MATIC "0xd78C475133731CD54daDCb430F7aAE4F03C1E660" 18
                   (Some "HOPE-P") (Some "Firebird HOPE-P");
  mret (mkExports
          (<[MATICTESTNET := wmatic_testnet]> {[MATIC := wmatic_matic]})
          {[MATIC := weth_matic]}
          {[BSC := bnb_bsc]}
          (<[BSC := hope_bsc]> {[MATIC := hope_matic]})).

(** The address literals of the constants, in the order they are built. *)
Definition constant_addresses : list string :=
  [ "0x0d500b1d8e8ef31e21c99d1db9a6444d3adf1270";
    "0x9c3C9283D3e44854697Cd22D3Faa240Cfb032889";
    "0x7ceB23fD6bC0adD59E62ac25578270cFf1b9f619";
    "0xbb4CdB9CBd36B01bD1cBaEBF2De08d9173bc095c";
    "0xd78c475133731cd54dadcb430f7aae4f03c1e660";
    "0xd78C475133731CD54daDCb430F7aAE4F03C1E660" ].

(** ** The fetcher *)

(** The initial value of the module-level [TOKEN_DECIMALS_CACHE]. *)
Definition TOKEN_DECIMALS_CACHE_init : gmap ChainId (gmap string Z) :=
  {[ MATIC := {[ "0xE0B7927c4aF23765Cb51314A0E0521A9645F0E2A" := 9%Z ]} ]}.

(** [TOKEN_DECIMALS_CACHE?.[chainId]?.[address]] when it is a number. *)
Definition cache_lookup (cache : gmap ChainId (gmap string Z))
    (chainId : ChainId) (address : string) : option Z :=
  cache !! chainId ≫= (.!! address).

Definition fetchTokenData `{Deps} (chainId : ChainId) (address : string)
    (provider : Provider) (symbol name : option string) : M loc :=
  cache ← get_cache;
  parsedDecimals ←
    match cache_lookup cache chainId address with
    | Some d => mret d
    | None =>
        d ← call_decimals provider address;
        cache' ← get_cache;
        _ ← set_cache (<[chainId := <[address := d]> (default ∅ (cache' !! chainId))]> cache');
        mret d
    end;
  Token_new chainId address parsedDecimals symbol name.

(** The template literal of the error thrown when the reserves cannot be read. *)
Definition reserves_error_message (address : string) (ratioA swapFee : Z) : string :=
  "
        Could not get reserves. Please verify that this: " ++ address ++
  " is the pool you are looking for. 
        Also check swapFee and ratioA parameters (ratio: " ++ pretty ratioA ++
  ", swapFee: " ++ pretty swapFee ++ ")
      ".

Definition fetchPairData `{Deps} (tokenA tokenB : loc) (provider : Provider)
    (ratioA swapFee : option Z) : M Pair :=
  let ratioA := default 50%Z ratioA in
  let swapFee := default 20%Z swapFee in
  h ← get_heap;
  a ← lift (deref_Token h tokenA);
  b ← lift (deref_Token h tokenB);
  _ ← lift (invariant (bool_decide (chainId a = chainId b)) "CHAIN_ID");
  address ← lift (Pair_getAddress h tokenA tokenB ratioA swapFee);
  reserves ← try_catch (call_getReserves provider address)
               (λ e, throw (JsError (reserves_error_message address ratioA swapFee)));
  sorted ← lift (Token_sortsBefore h tokenA tokenB);
  let '(reserves0, reserves1) := (reserves : Z * Z) in
  let balances := if (sorted : bool) then (reserves0, reserves1) else (reserves1, reserves0) in
  amountA ← lift (TokenAmount_new h tokenA (balances.1));
  amountB ← lift (TokenAmount_new h tokenB (balances.2));
  lift (Pair_new h amountA amountB).

(** ** The heap invariant *)

(** Every token in the heap was built by the constructor, so its address is
    an output of [validateAndParseAddress]. *)
Definition heap_validated `{Deps} (h : list object) : Prop :=
  ∀ l t, h !! l = Some (TokenObj t) → ∃ s, validateAndParseAddress s = Ok (address t).

(** A computation that keeps the invariant, whatever its outcome. *)
Definition preserves `{Deps} {A} (m : M A) : Prop :=
  ∀ w, heap_validated (heap w) → heap_validated (heap (m w).2).

(** ** The cache after a miss *)

(** The cache once the live lookup for (chain, addr) has answered [d]: the
    value [fetchTokenData] assigns to [TOKEN_DECIMALS_CACHE]. *)
Definition cache_after (cache : gmap ChainId (gmap string Z))
    (chain : ChainId) (addr : string) (d : Z) : gmap ChainId (gmap string Z) :=
  <[chain := <[addr := d]> (default ∅ (cache !! chain))]> cache.

(** ** A reference instance of the imported code

    Enough to run the model: addresses are "0x" and forty hexadecimal digits
    and their canonical spelling is the lower-case one; a pool address is a
    readable digest of the sorted pair, the ratio and the fee; an amount is
    the pair of a token and a non-negative integer; a pair of amounts is
    stored sorted. *)
Module Sample.

Definition is_hex_digit (c : ascii) : bool :=
  let n := N_of_ascii c in
  (((48 <=? n) && (n <=? 57)) || ((65 <=? n) && (n <=? 70)) || ((97 <=? n) && (n <=? 102)))%N.

Fixpoint all_hex (s : string) : bool :=
  match s with
  | EmptyString => true
  | String c s' => is_hex_digit c && all_hex s'
  end.

Definition is_address (s : string) : bool :=
  match s with
  | String "0" (String "x" body) => (String.length body =? 40)%nat && all_hex body
  | _ => false
  end.

Definition validate (s : string) : Result string :=
  if is_address s then Ok (toLowerCase s)
  else Err (InvariantFailed (s +:+ " is not a valid address.")).

Definition getAddress (h : list object) (tokenA tokenB : loc) (ratioA swapFee : Z)
    : Result string :=
  a ← deref_Token h tokenA;
  b ← deref_Token h tokenB;
  sorted ← Token_sortsBefore h tokenA tokenB;
  let '(t0, t1, r) :=
    if (sorted : bool) then (a, b, ratioA) else (b, a, (100 - ratioA)%Z) in
  Ok ("pool(" +:+ toLowerCase (address t0) +:+ "," +:+ toLowerCase (address t1)
      +:+ "," +:+ pretty r +:+ "," +:+ pretty swapFee +:+ ")").

Record amount : Type := mkAmount { token : loc; raw : Z }.

Definition amount_new (h : list object) (t : loc) (n : Z) : Result amount :=
  _ ← deref_Token h t;
  _ ← invariant (bool_decide (0 ≤ n)%Z) "AMOUNT";
  Ok (mkAmount t n).

Definition pair_new (h : list object) (x y : amount) : Result (amount * amount) :=
  sorted ← Token_sortsBefore h (token x) (token y);
  Ok (if (sorted : bool) then (x, y) else (y, x)).

Definition deps : Deps := {|
  validateAndParseAddress := validate;
  Pair_getAddress := getAddress;
  TokenAmount := amount;
  TokenAmount_new := amount_new;
  Pair := (amount * amount)%type;
  Pair_new := pair_new
|}.

(** The world after the token module has been loaded. *)
Definition world0 : World := mkWorld [] TOKEN_DECIMALS_CACHE_init [].
Definition loaded : Result Exports * World := @token_module deps world0.

(** The tokens that loading allocates at references 0, 2, 3, 4 and 5. *)
Definition wmatic : Token :=
  mkToken (mkCurrency 18 (Some "WMATIC") (Some "Wrapped MATIC")) MATIC
          "0x0d500b1d8e8ef31e21c99d1db9a6444d3adf1270".
Definition weth : Token :=
  mkToken (mkCurrency 18 (Some "WETH") (Some "Wrapped ETH")) MATIC
          "0x7ceb23fd6bc0add59e62ac25578270cff1b9f619".
Definition wbnb : Token :=
  mkToken (mkCurrency 18 (Some "WBNB") (Some "Wrapped BNB")) BSC
          "0xbb4cdb9cbd36b01bd1cbaebf2de08d9173bc095c".
Definition hope : Token :=
  mkToken (mkCurrency 18 (Some "HOPE") (Some "Firebird HOPE")) MATIC
          "0xd78c475133731cd54dadcb430f7aae4f03c1e660".
Definition hope_p : Token :=
  mkToken (mkCurrency 18 (Some "HOPE-P") (Some "Firebird HOPE-P")) MATIC
          "0xd78c475133731cd54dadcb430f7aae4f03c1e660".

(** The loaded heap with one native currency after the tokens, at
    reference 6. *)
Definition native : Currency := mkCurrency 18 (Some "MATIC") (Some "Matic").
Definition heap_with_native : list object :=
  (heap loaded.2 ++ [CurrencyObj native])%list.

(** The pool of WMATIC and WETH at the default ratio and fee, and at
    ratio 30. *)
Definition pool_50_20 : string :=
  "pool(0x0d500b1d8e8ef31e21c99d1db9a6444d3adf1270,0x7ceb23fd6bc0add59e62ac25578270cff1b9f619,50,20)".
Definition pool_30_20 : string :=
  "pool(0x0d500b1d8e8ef31e21c99d1db9a6444d3adf1270,0x7ceb23fd6bc0add59e62ac25578270cff1b9f619,30,20)".

(** A provider that knows one token and one pool. *)
Definition provider : Provider := {|
  erc20_decimals := λ a,
    if String.eqb a "0x7ceB23fD6bC0adD59E62ac25578270cFf1b9f619" then Ok 18%Z
    else Err (Rejected "call revert exception");
  pair_getReserves := λ a,
    if String.eqb a pool_50_20 then Ok (1000%Z, 7%Z)
    else Err (Rejected "call revert exception")
|}.

End Sample.

(** * Properties *)

(** ** Strings and the order on them *)

Lemma str_lt_irrefl (s : string) : str_lt s s = false.
Proof.
  unfold str_lt, String.ltb.
  pose proof (String.compare_antisym s s) as E.
  destruct (String.compare s s); simpl in E; try reflexivity; discriminate.
Qed.

(** On two different strings exactly one direction of [<] holds. *)
Lemma str_lt_flip (s1 s2 : string) :
  s1 ≠ s2 → str_lt s1 s2 = negb (str_lt s2 s1).
Proof.
  intros Hne. unfold str_lt, String.ltb.
  rewrite (String.compare_antisym s1 s2).
  destruct (String.compare s2 s1) eqn:E; simpl; try reflexivity.
  apply String.compare_eq_iff in E. congruence.
Qed.

Lemma contains_here (sub post : string) : contains (sub ++ post) sub.
Proof. by exists "", post. Qed.

Lemma contains_skip (pre s sub : string) : contains s sub → contains (pre ++ s) sub.
Proof.
  intros (p & q & ->). exists (pre ++ p), q.
  induction pre as [|c pre IH]; [reflexivity|].
  change (String c (pre ++ p ++ sub ++ q) = String c ((pre ++ p) ++ sub ++ q)).
  by f_equal.
Qed.

(** ** Dereferencing *)

Lemma deref_Some h l o : h !! l = Some o → deref h l = Ok o.
Proof. unfold deref. by intros ->. Qed.

Lemma deref_Token_Some h l t : h !! l = Some (TokenObj t) → deref_Token h l = Ok t.
Proof. unfold deref_Token. intros Hl. by rewrite (deref_Some _ _ _ Hl). Qed.

Lemma deref_Token_Currency h l c :
  h !! l = Some (CurrencyObj c) → deref_Token h l = Err (TypeError "not a Token").
Proof. unfold deref_Token. intros Hl. by rewrite (deref_Some _ _ _ Hl). Qed.

(** ** Token.equals *)

(** On the heap alone [equals] is the exact comparison of both fields. *)
Lemma Token_equals_exact h la lb a b :
  h !! la = Some (TokenObj a) → h !! lb = Some (TokenObj b) →
  Token_equals h la lb = Ok (bool_decide (chainId a = chainId b ∧ address a = address b)).
Proof.
  intros Ha Hb. unfold Token_equals.
  rewrite (deref_Token_Some _ _ _ Ha). simpl.
  case_bool_decide as Hl.
  - subst lb. rewrite Ha in Hb. injection Hb as ->.
    by rewrite bool_decide_eq_true_2.
  - rewrite (deref_Token_Some _ _ _ Hb). simpl.
    f_equal. repeat case_bool_decide; simpl; intuition.
Qed.

(** The comparison itself is case sensitive: on a heap holding two spellings
    of one address, which the constructor never produces from a checksumming
    [validateAndParseAddress], the tokens are unequal. *)
Remark Token_equals_raw_spellings :
  Token_equals
    [ TokenObj (mkToken (mkCurrency 18 None None) MATIC
                  "0xd78c475133731cd54dadcb430f7aae4f03c1e660");
      TokenObj (mkToken (mkCurrency 18 None None) MATIC
                  "0xd78C475133731CD54daDCb430F7aAE4F03C1E660") ] 0 1
  = Ok false.
Proof. reflexivity. Qed.

Lemma Token_equals_sym h la lb a b :
  h !! la = Some (TokenObj a) → h !! lb = Some (TokenObj b) →
  Token_equals h la lb = Token_equals h lb la.
Proof.
  intros Ha Hb.
  rewrite (Token_equals_exact _ _ _ _ _ Ha Hb), (Token_equals_exact _ _ _ _ _ Hb Ha).
  f_equal. apply bool_decide_ext. split; intros [-> ->]; done.
Qed.

Section WithDeps.
Context `{Deps}.

(** C1: For two tokens of a heap whose token addresses are checksummed outputs
    of [validateAndParseAddress], [a.equals(b)] returns, and it returns
    true exactly when the chain ids are equal and the addresses are equal
    up to letter case. *)
Theorem Token_equals_case_insensitive (h : list object) (la lb : loc) (a b : Token) :
  checksummed → heap_validated h →
  h !! la = Some (TokenObj a) → h !! lb = Some (TokenObj b) →
  ∃ r, Token_equals h la lb = Ok r ∧
       (r = true ↔
        chainId a = chainId b ∧ toLowerCase (address a) = toLowerCase (address b)).
Proof.
  intros Hck Hval Ha Hb.
  eexists. split; [by apply Token_equals_exact|].
  rewrite bool_decide_eq_true.
  destruct (Hval _ _ Ha) as [sa Hsa], (Hval _ _ Hb) as [sb Hsb].
  split.
  - intros [-> ->]. done.
  - intros [-> Hlow]. split; [done|]. by eapply Hck.
Qed.

(** ** Token.sortsBefore *)

(** On two tokens of one chain with unequal addresses both invariants hold. *)
Lemma Token_sortsBefore_Ok (h : list object) (la lb : loc) (a b : Token) :
  h !! la = Some (TokenObj a) → h !! lb = Some (TokenObj b) →
  chainId a = chainId b → address a ≠ address b →
  Token_sortsBefore h la lb =
    Ok (str_lt (toLowerCase (address a)) (toLowerCase (address b))).
Proof.
  intros Ha Hb Hchain Haddr. unfold Token_sortsBefore, invariant.
  rewrite (deref_Token_Some _ _ _ Ha), (deref_Token_Some _ _ _ Hb). simpl.
  rewrite (bool_decide_eq_true_2 _ Hchain), (bool_decide_eq_false_2 _ Haddr).
  reflexivity.
Qed.

(** Checksummed addresses that differ still differ in lower case. *)
Lemma lower_address_distinct (h : list object) (la lb : loc) (a b : Token) :
  checksummed → heap_validated h →
  h !! la = Some (TokenObj a) → h !! lb = Some (TokenObj b) →
  address a ≠ address b →
  toLowerCase (address a) ≠ toLowerCase (address b).
Proof.
  intros Hck Hval Ha Hb Haddr Hlow.
  destruct (Hval _ _ Ha) as [sa Hsa], (Hval _ _ Hb) as [sb Hsb].
  apply Haddr. by eapply Hck.
Qed.

(** C4: [a.sortsBefore(b)] throws when the chain ids differ or the addresses
    are equal, and otherwise returns whether the lower-cased address of
    [a] is less than the lower-cased address of [b]. *)
Theorem Token_sortsBefore_spec (h : list object) (la lb : loc) (a b : Token) :
  h !! la = Some (TokenObj a) → h !! lb = Some (TokenObj b) →
  (chainId a ≠ chainId b →
     Token_sortsBefore h la lb = Err (InvariantFailed "CHAIN_IDS")) ∧
  (chainId a = chainId b → address a = address b →
     Token_sortsBefore h la lb = Err (InvariantFailed "ADDRESSES")) ∧
  (chainId a = chainId b → address a ≠ address b →
     Token_sortsBefore h la lb =
       Ok (str_lt (toLowerCase (address a)) (toLowerCase (address b)))).
Proof.
  intros Ha Hb. unfold Token_sortsBefore.
  rewrite (deref_Token_Some _ _ _ Ha), (deref_Token_Some _ _ _ Hb). simpl.
  repeat split; intros; repeat case_bool_decide; simpl; congruence.
Qed.

(** C3: For two tokens of the same chain with unequal addresses, both calls
    return and [sortsBefore(a, b)] is the negation of [sortsBefore(b, a)]. *)
Theorem Token_sortsBefore_flip (h : list object) (la lb : loc) (a b : Token) :
  checksummed → heap_validated h →
  h !! la = Some (TokenObj a) → h !! lb = Some (TokenObj b) →
  chainId a = chainId b → address a ≠ address b →
  ∃ r, Token_sortsBefore h la lb = Ok r ∧ Token_sortsBefore h lb la = Ok (negb r).
Proof.
  intros Hck Hval Ha Hb Hchain Haddr.
  rewrite (Token_sortsBefore_Ok _ _ _ _ _ Ha Hb Hchain Haddr).
  rewrite (Token_sortsBefore_Ok _ _ _ _ _ Hb Ha) by done.
  eexists. split; [reflexivity|]. f_equal.
  apply str_lt_flip. intros Hlow.
  by apply (lower_address_distinct _ _ _ _ _ Hck Hval Ha Hb Haddr).
Qed.

End WithDeps.

(** ** currencyEquals *)

(** C8: [currencyEquals(a, b)] returns false when exactly one of the two is a
    [Token], and when neither is a [Token] it returns whether the two
    references are the same. *)
Theorem currencyEquals_mixed_and_native (h : list object) (la lb : loc) (oa ob : object) :
  h !! la = Some oa → h !! lb = Some ob →
  (instanceof_Token oa ≠ instanceof_Token ob → currencyEquals h la lb = Ok false) ∧
  (instanceof_Token oa = false → instanceof_Token ob = false →
     currencyEquals h la lb = Ok (bool_decide (la = lb))).
Proof.
  intros Ha Hb. unfold currencyEquals.
  rewrite (deref_Some _ _ _ Ha), (deref_Some _ _ _ Hb). simpl.
  split.
  - destruct oa, ob; simpl; congruence.
  - by intros -> ->.
Qed.

(** C9: On references to currencies, [currencyEquals] returns; it is reflexive
    and symmetric. *)
Theorem currencyEquals_refl_sym (h : list object) (la lb : loc) :
  is_Some (h !! la) → is_Some (h !! lb) →
  currencyEquals h la la = Ok true ∧
  (∃ r, currencyEquals h la lb = Ok r) ∧
  currencyEquals h la lb = currencyEquals h lb la.
Proof.
  intros [oa Ha] [ob Hb]. unfold currencyEquals.
  rewrite !(deref_Some _ _ _ Ha), !(deref_Some _ _ _ Hb). simpl.
  destruct oa as [ca|ta], ob as [cb|tb]; simpl.
  - rewrite bool_decide_eq_true_2 by done. repeat split; eauto.
    f_equal. apply bool_decide_ext. split; intros ->; done.
  - rewrite bool_decide_eq_true_2 by done. repeat split; eauto.
  - rewrite (Token_equals_exact _ _ _ _ _ Ha Ha).
    rewrite bool_decide_eq_true_2 by done. repeat split; eauto.
  - rewrite <- (Token_equals_sym _ _ _ _ _ Ha Hb).
    rewrite (Token_equals_exact _ _ _ _ _ Ha Ha), (Token_equals_exact _ _ _ _ _ Ha Hb).
    rewrite bool_decide_eq_true_2 by done. repeat split; eauto.
Qed.

(** ** The monad *)

Lemma bind_Ok {A B} (m : M A) (f : A → M B) w a w' :
  m w = (Ok a, w') → (m ≫= f) w = f a w'.
Proof. unfold mbind, M_bind. by intros ->. Qed.

Lemma bind_Err {A B} (m : M A) (f : A → M B) w e w' :
  m w = (Err e, w') → (m ≫= f) w = (Err e, w').
Proof. unfold mbind, M_bind. by intros ->. Qed.

Lemma lift_run {A} (r : Result A) w : lift r w = (r, w).
Proof. reflexivity. Qed.

(** ** The heap invariant is kept *)

Section Invariant.
Context `{Deps}.

Lemma heap_validated_nil : heap_validated [].
Proof. intros l t Hl. by rewrite lookup_nil in Hl. Qed.

Lemma heap_validated_snoc h t s :
  heap_validated h → validateAndParseAddress s = Ok (address t) →
  heap_validated (h ++ [TokenObj t])%list.
Proof.
  intros Hh Hs l t' Hl.
  apply lookup_snoc_Some in Hl as [[_ Hl]|[_ [= <-]]]; eauto.
Qed.

Lemma preserves_bind {A B} (m : M A) (f : A → M B) :
  preserves m → (∀ a, preserves (f a)) → preserves (m ≫= f).
Proof.
  intros Hm Hf w Hw. specialize (Hm w Hw).
  unfold mbind, M_bind. destruct (m w) as [[a|e] w1]; simpl in *; [|done].
  by apply Hf.
Qed.

Lemma preserves_same_heap {A} (m : M A) :
  (∀ w, heap (m w).2 = heap w) → preserves m.
Proof. intros Hm w Hw. by rewrite Hm. Qed.

Lemma Token_new_preserves c a d s n : preserves (Token_new c a d s n).
Proof.
  unfold Token_new.
  apply preserves_bind; [by apply preserves_same_heap|]. intros super.
  intros w Hw. unfold mbind, M_bind, lift.
  destruct (validateAndParseAddress a) as [parsed|e] eqn:Ea; simpl; [|done].
  by eapply heap_validated_snoc.
Qed.

Lemma fetchTokenData_preserves c a p s n : preserves (fetchTokenData c a p s n).
Proof.
  unfold fetchTokenData.
  apply preserves_bind; [by apply preserves_same_heap|]. intros cache.
  apply preserves_bind; [|intros; apply Token_new_preserves].
  destruct (cache_lookup cache c a); [by apply preserves_same_heap|].
  repeat (apply preserves_bind; [by apply preserves_same_heap|]; intros).
  by apply preserves_same_heap.
Qed.

Lemma token_module_preserves : preserves token_module.
Proof.
  unfold token_module.
  repeat (apply preserves_bind; [apply Token_new_preserves|]; intros).
  by apply preserves_same_heap.
Qed.

(** What a successful construction does to the world. *)
Lemma Token_new_Ok c a d s n parsed w :
  (0 ≤ d ≤ 255)%Z → validateAndParseAddress a = Ok parsed →
  Token_new c a d s n w =
    (Ok (List.length (heap w)),
     mkWorld (heap w ++ [TokenObj (mkToken (mkCurrency d s n) c parsed)])%list
             (TOKEN_DECIMALS_CACHE w) (calls w)).
Proof.
  intros Hd Ha. unfold Token_new, Currency_new, invariant.
  rewrite bool_decide_eq_true_2 by done.
  unfold mbind, M_bind, Result_bind, lift. by rewrite Ha.
Qed.

(** A construction never makes a live call and never touches the cache. *)
Lemma Token_new_quiet c a d s n w :
  calls (Token_new c a d s n w).2 = calls w ∧
  TOKEN_DECIMALS_CACHE (Token_new c a d s n w).2 = TOKEN_DECIMALS_CACHE w.
Proof.
  unfold Token_new, mbind, M_bind, lift.
  destruct (Currency_new d s n); simpl; [|done].
  destruct (validateAndParseAddress a); done.
Qed.

End Invariant.

(** ** The fetcher *)

Section Fetcher.
Context `{Deps}.

(** [fetchPairData] on two tokens of one chain, once the pool address is
    known: one live call, then the amounts in argument order. *)
Lemma fetchPairData_same_chain w tokenA tokenB a b provider ratioA swapFee pool :
  heap w !! tokenA = Some (TokenObj a) → heap w !! tokenB = Some (TokenObj b) →
  chainId a = chainId b →
  Pair_getAddress (heap w) tokenA tokenB (default 50%Z ratioA) (default 20%Z swapFee)
    = Ok pool →
  fetchPairData tokenA tokenB provider ratioA swapFee w =
    (match pair_getReserves provider pool with
     | Err _ =>
         Err (JsError (reserves_error_message pool (default 50%Z ratioA)
                         (default 20%Z swapFee)))
     | Ok (reserves0, reserves1) =>
         sorted ← Token_sortsBefore (heap w) tokenA tokenB;
         amountA ← TokenAmount_new (heap w) tokenA
                     (if (sorted : bool) then reserves0 else reserves1);
         amountB ← TokenAmount_new (heap w) tokenB
                     (if (sorted : bool) then reserves1 else reserves0);
         Pair_new (heap w) amountA amountB
     end,
     log_call (CallGetReserves pool) w).
Proof.
  intros Ha Hb Hchain Hpool. unfold fetchPairData.
  unfold mbind at 1, M_bind at 1, get_heap.
  erewrite bind_Ok by (rewrite lift_run, (deref_Token_Some _ _ _ Ha); reflexivity).
  erewrite bind_Ok by (rewrite lift_run, (deref_Token_Some _ _ _ Hb); reflexivity).
  erewrite bind_Ok
    by (rewrite lift_run; unfold invariant; rewrite bool_decide_eq_true_2 by done;
        reflexivity).
  erewrite bind_Ok by (rewrite lift_run, Hpool; reflexivity).
  unfold mbind at 1, M_bind at 1, try_catch, call_getReserves, throw.
  destruct (pair_getReserves provider pool) as [[reserves0 reserves1]|e]; [|done].
  unfold mbind, M_bind, Result_bind, lift.
  destruct (Token_sortsBefore (heap w) tokenA tokenB) as [[]|]; simpl; [| |done].
  - destruct (TokenAmount_new (heap w) tokenA reserves0); [|done].
    by destruct (TokenAmount_new (heap w) tokenB reserves1).
  - destruct (TokenAmount_new (heap w) tokenA reserves1); [|done].
    by destruct (TokenAmount_new (heap w) tokenB reserves0).
Qed.

(** C5: On tokens of different chains [fetchPairData] fails with the
    chain-mismatch invariant and leaves the world, hence the log of live
    calls, as it was: no reserve lookup is attempted. *)
Theorem fetchPairData_chain_mismatch (w : World) (tokenA tokenB : loc) (a b : Token)
    (provider : Provider) (ratioA swapFee : option Z) :
  heap w !! tokenA = Some (TokenObj a) → heap w !! tokenB = Some (TokenObj b) →
  chainId a ≠ chainId b →
  fetchPairData tokenA tokenB provider ratioA swapFee w
    = (Err (InvariantFailed "CHAIN_ID"), w).
Proof.
  intros Ha Hb Hchain. unfold fetchPairData.
  unfold mbind at 1, M_bind at 1, get_heap.
  erewrite bind_Ok by (rewrite lift_run, (deref_Token_Some _ _ _ Ha); reflexivity).
  erewrite bind_Ok by (rewrite lift_run, (deref_Token_Some _ _ _ Hb); reflexivity).
  erewrite bind_Err; [reflexivity|].
  rewrite lift_run. unfold invariant. by rewrite bool_decide_eq_false_2.
Qed.

(** C6: When the reserve lookup fails, with whatever error, the error that
    reaches the caller is the message built from the pool address, ratioA
    and swapFee, and each of the three occurs in it. *)
Theorem fetchPairData_lookup_failure (w : World) (tokenA tokenB : loc) (a b : Token)
    (provider : Provider) (ratioA swapFee : option Z) (pool : string) (e : Error) :
  heap w !! tokenA = Some (TokenObj a) → heap w !! tokenB = Some (TokenObj b) →
  chainId a = chainId b →
  Pair_getAddress (heap w) tokenA tokenB (default 50%Z ratioA) (default 20%Z swapFee)
    = Ok pool →
  pair_getReserves provider pool = Err e →
  ∃ msg,
    (fetchPairData tokenA tokenB provider ratioA swapFee w).1 = Err (JsError msg) ∧
    msg = reserves_error_message pool (default 50%Z ratioA) (default 20%Z swapFee) ∧
    contains msg pool ∧
    contains msg (pretty (default 50%Z ratioA)) ∧
    contains msg (pretty (default 20%Z swapFee)).
Proof.
  intros Ha Hb Hchain Hpool Hfail.
  rewrite (fetchPairData_same_chain _ _ _ _ _ _ _ _ _ Ha Hb Hchain Hpool), Hfail.
  eexists. split; [reflexivity|]. split; [reflexivity|].
  unfold reserves_error_message.
  repeat split; repeat first [apply contains_here | apply contains_skip].
Qed.
End Fetcher.

Section FetcherResults.
Context `{Deps}.

(** A live call is logged exactly when the cache has no entry. *)
Lemma fetchTokenData_calls w chainId address provider symbol name :
  calls (fetchTokenData chainId address provider symbol name w).2 =
    match cache_lookup (TOKEN_DECIMALS_CACHE w) chainId address with
    | Some _ => calls w
    | None => (calls w ++ [CallDecimals address])%list
    end.
Proof.
  unfold fetchTokenData. unfold mbind at 1, M_bind at 1, get_cache.
  destruct (cache_lookup (TOKEN_DECIMALS_CACHE w) chainId address) as [d|].
  - unfold mbind, M_bind, mret, M_ret. apply Token_new_quiet.
  - unfold mbind, M_bind, mret, M_ret, call_decimals, get_cache, set_cache.
    destruct (erc20_decimals provider address) as [d|e]; simpl; [|done].
    match goal with |- calls (Token_new ?c ?a ?d ?s ?n ?w1).2 = _ =>
      destruct (Token_new_quiet c a d s n w1) as [-> _] end.
    done.
Qed.

(** C7: When the cache holds a number for (chainId, address), [fetchTokenData]
    makes no live call and leaves the cache alone, and for an address that
    [validateAndParseAddress] accepts and decimals within 0-255 it returns
    a token with exactly these decimals. Conversely a live call is made
    only from a world whose cache has no entry for the pair. *)
Theorem fetchTokenData_cached (w : World) (chain : ChainId) (addr : string)
    (provider : Provider) (symbol name : option string) (d : Z) (parsed : string) :
  cache_lookup (TOKEN_DECIMALS_CACHE w) chain addr = Some d →
  (0 ≤ d ≤ 255)%Z →
  validateAndParseAddress addr = Ok parsed →
  let out := fetchTokenData chain addr provider symbol name w in
  (∃ l t, out.1 = Ok l ∧ heap out.2 !! l = Some (TokenObj t) ∧
          decimals (currency t) = d ∧
          chainId t = chain ∧ address t = parsed) ∧
  calls out.2 = calls w ∧
  TOKEN_DECIMALS_CACHE out.2 = TOKEN_DECIMALS_CACHE w ∧
  (∀ w0, calls (fetchTokenData chain addr provider symbol name w0).2 ≠ calls w0 →
         cache_lookup (TOKEN_DECIMALS_CACHE w0) chain addr = None).
Proof.
  intros Hhit Hd Hvalid out.
  assert (Hout : out =
    (Ok (List.length (heap w)),
     mkWorld (heap w ++ [TokenObj (mkToken (mkCurrency d symbol name) chain parsed)])%list
             (TOKEN_DECIMALS_CACHE w) (calls w))).
  { subst out. unfold fetchTokenData. unfold mbind at 1, M_bind at 1, get_cache.
    rewrite Hhit. unfold mbind, M_bind, mret, M_ret.
    by apply Token_new_Ok. }
  rewrite Hout. simpl. repeat split.
  - eexists _, _. split; [reflexivity|].
    split; [by apply list_lookup_middle|done].
  - intros w0 Hcalls. rewrite fetchTokenData_calls in Hcalls.
    by destruct (cache_lookup (TOKEN_DECIMALS_CACHE w0) chain addr).
Qed.

(** C2: For two tokens of one chain with unequal addresses and a fetched pair
    (reserves0, reserves1), [fetchPairData] pairs reserves0 with the token
    that sorts first and reserves1 with the other: called as
    (tokenA, tokenB) and as (tokenB, tokenA) it builds the amount of each
    token from the same reserve. *)
Theorem fetchPairData_order_independent (w : World) (tokenA tokenB : loc) (a b : Token)
    (provider : Provider) (ratioA swapFee : option Z) (poolAB poolBA : string)
    (reserves0 reserves1 : Z) :
  checksummed → heap_validated (heap w) →
  heap w !! tokenA = Some (TokenObj a) → heap w !! tokenB = Some (TokenObj b) →
  chainId a = chainId b → address a ≠ address b →
  Pair_getAddress (heap w) tokenA tokenB (default 50%Z ratioA) (default 20%Z swapFee)
    = Ok poolAB →
  Pair_getAddress (heap w) tokenB tokenA (default 50%Z ratioA) (default 20%Z swapFee)
    = Ok poolBA →
  pair_getReserves provider poolAB = Ok (reserves0, reserves1) →
  pair_getReserves provider poolBA = Ok (reserves0, reserves1) →
  ∃ reserveA reserveB,
    (fetchPairData tokenA tokenB provider ratioA swapFee w).1 =
      (amountA ← TokenAmount_new (heap w) tokenA reserveA;
       amountB ← TokenAmount_new (heap w) tokenB reserveB;
       Pair_new (heap w) amountA amountB) ∧
    (fetchPairData tokenB tokenA provider ratioA swapFee w).1 =
      (amountB ← TokenAmount_new (heap w) tokenB reserveB;
       amountA ← TokenAmount_new (heap w) tokenA reserveA;
       Pair_new (heap w) amountB amountA) ∧
    ((Token_sortsBefore (heap w) tokenA tokenB = Ok true ∧
      reserveA = reserves0 ∧ reserveB = reserves1) ∨
     (Token_sortsBefore (heap w) tokenB tokenA = Ok true ∧
      reserveB = reserves0 ∧ reserveA = reserves1)).
Proof.
  intros Hck Hval Ha Hb Hchain Haddr HpoolAB HpoolBA HresAB HresBA.
  rewrite (fetchPairData_same_chain _ _ _ _ _ _ _ _ _ Ha Hb Hchain HpoolAB), HresAB.
  rewrite (fetchPairData_same_chain _ _ _ _ _ _ _ _ _ Hb Ha (eq_sym Hchain) HpoolBA),
    HresBA.
  rewrite (Token_sortsBefore_Ok _ _ _ _ _ Ha Hb Hchain Haddr).
  rewrite (Token_sortsBefore_Ok _ _ _ _ _ Hb Ha) by done.
  rewrite (str_lt_flip (toLowerCase (address b)) (toLowerCase (address a)))
    by (intros Hlow; by apply (lower_address_distinct _ _ _ _ _ Hck Hval Ha Hb Haddr)).
  destruct (str_lt (toLowerCase (address a)) (toLowerCase (address b))); simpl.
  - exists reserves0, reserves1. repeat split; try reflexivity. by left.
  - exists reserves1, reserves0. repeat split; try reflexivity. by right.
Qed.

(** ** The token constants *)

(** C10: When the six address literals are valid the token module loads, every
    token stored under a chain id key in WMATIC, WETH and BNB has that
    chain id, and the token stored under BSC in HOPE has chain id MATIC,
    which is not its key. *)
Theorem token_constants_chainId (w : World) :
  Forall (λ s, is_Ok (validateAndParseAddress s)) constant_addresses →
  ∃ ex,
    (token_module w).1 = Ok ex ∧
    (∀ k l, WMATIC ex !! k = Some l ∨ WETH ex !! k = Some l ∨ BNB ex !! k = Some l →
            ∃ t, heap (token_module w).2 !! l = Some (TokenObj t) ∧ chainId t = k) ∧
    (∃ l t, HOPE ex !! BSC = Some l ∧
            heap (token_module w).2 !! l = Some (TokenObj t) ∧
            chainId t = MATIC ∧ chainId t ≠ BSC).
Proof.
  intros Hvalid. unfold constant_addresses in Hvalid.
  repeat (apply Forall_cons in Hvalid as [[? ?] Hvalid]).
  unfold token_module.
  repeat (erewrite bind_Ok by (apply Token_new_Ok; [lia|eassumption])).
  unfold mret, M_ret. simpl.
  eexists. split; [reflexivity|]. simpl. split.
  - intros k l Hk.
    destruct k, Hk as [Hk|[Hk|Hk]]; simplify_map_eq; eexists;
      (split;
       [ repeat first
           [ apply list_lookup_middle; reflexivity
           | rewrite lookup_app_l by (rewrite ?length_app; simpl; lia) ]
       | reflexivity ]).
  - eexists _, _. split; [by simplify_map_eq|].
    split; [by apply list_lookup_middle|]. done.
Qed.

End FetcherResults.

(** * Further properties of tokens and currencies *)

(** ** The order on strings is transitive *)

Lemma ascii_compare_refl (c : ascii) : Ascii.compare c c = Eq.
Proof. unfold Ascii.compare. apply N.compare_refl. Qed.

Lemma ascii_compare_lt_trans (a b c : ascii) :
  Ascii.compare a b = Lt → Ascii.compare b c = Lt → Ascii.compare a c = Lt.
Proof. unfold Ascii.compare. rewrite !N.compare_lt_iff. lia. Qed.

Lemma string_compare_lt_trans (s1 s2 s3 : string) :
  String.compare s1 s2 = Lt → String.compare s2 s3 = Lt → String.compare s1 s3 = Lt.
Proof.
  revert s2 s3. induction s1 as [|c1 s1 IH]; intros [|c2 s2] [|c3 s3]; simpl; try done.
  destruct (Ascii.compare c1 c2) eqn:E12, (Ascii.compare c2 c3) eqn:E23; try done.
  - apply Ascii.compare_eq_iff in E12, E23. subst. rewrite ascii_compare_refl. apply IH.
  - apply Ascii.compare_eq_iff in E12. subst. by rewrite E23.
  - apply Ascii.compare_eq_iff in E23. subst. by rewrite E12.
  - by rewrite (ascii_compare_lt_trans _ _ _ E12 E23).
Qed.

Lemma str_lt_trans (s1 s2 s3 : string) :
  str_lt s1 s2 = true → str_lt s2 s3 = true → str_lt s1 s3 = true.
Proof.
  unfold str_lt, String.ltb. intros H12 H23.
  destruct (String.compare s1 s2) eqn:E12; try done.
  destruct (String.compare s2 s3) eqn:E23; try done.
  by rewrite (string_compare_lt_trans _ _ _ E12 E23).
Qed.

Lemma str_lt_neq (s1 s2 : string) : str_lt s1 s2 = true → s1 ≠ s2.
Proof. intros Hlt ->. by rewrite str_lt_irrefl in Hlt. Qed.

(** ** What a returned [sortsBefore] says about its arguments *)

Lemma Token_sortsBefore_inv (h : list object) (la lb : loc) (a b : Token) (r : bool) :
  h !! la = Some (TokenObj a) → h !! lb = Some (TokenObj b) →
  Token_sortsBefore h la lb = Ok r →
  chainId a = chainId b ∧ address a ≠ address b ∧
  r = str_lt (toLowerCase (address a)) (toLowerCase (address b)).
Proof.
  intros Ha Hb. unfold Token_sortsBefore, invariant.
  rewrite (deref_Token_Some _ _ _ Ha), (deref_Token_Some _ _ _ Hb). simpl.
  destruct (decide (chainId a = chainId b)) as [Hc|Hc];
    [rewrite (bool_decide_eq_true_2 _ Hc)|by rewrite (bool_decide_eq_false_2 _ Hc)].
  destruct (decide (address a = address b)) as [Hd|Hd];
    [by rewrite (bool_decide_eq_true_2 _ Hd)|rewrite (bool_decide_eq_false_2 _ Hd)].
  simpl. by intros [= <-].
Qed.

(** X1: [Token.equals] is an equivalence on the tokens of a heap: it returns
    true on a token and itself, gives the same answer in both argument
    orders, and from [a.equals(b)] and [b.equals(c)] follows [a.equals(c)]. *)
Theorem Token_equals_equivalence (h : list object) (la lb lc : loc) (a b c : Token) :
  h !! la = Some (TokenObj a) → h !! lb = Some (TokenObj b) →
  h !! lc = Some (TokenObj c) →
  Token_equals h la la = Ok true ∧
  Token_equals h la lb = Token_equals h lb la ∧
  (Token_equals h la lb = Ok true → Token_equals h lb lc = Ok true →
   Token_equals h la lc = Ok true).
Proof.
  intros Ha Hb Hc.
  rewrite (Token_equals_exact _ _ _ _ _ Ha Ha), (Token_equals_exact _ _ _ _ _ Ha Hb),
    (Token_equals_exact _ _ _ _ _ Hb Ha), (Token_equals_exact _ _ _ _ _ Hb Hc),
    (Token_equals_exact _ _ _ _ _ Ha Hc).
  split; [by rewrite bool_decide_eq_true_2|]. split.
  - f_equal. apply bool_decide_ext. split; intros [-> ->]; done.
  - intros [= Hab%bool_decide_eq_true] [= Hbc%bool_decide_eq_true].
    f_equal. apply bool_decide_eq_true.
    destruct Hab as [-> ->], Hbc as [-> ->]. done.
Qed.

(** X2: On two tokens [currencyEquals] is the comparison of chain id and
    stored address and of nothing else: decimals, symbol and name play no
    part. *)
Theorem currencyEquals_tokens (h : list object) (la lb : loc) (a b : Token) :
  h !! la = Some (TokenObj a) → h !! lb = Some (TokenObj b) →
  currencyEquals h la lb =
    Ok (bool_decide (chainId a = chainId b ∧ address a = address b)).
Proof.
  intros Ha Hb. unfold currencyEquals.
  rewrite (deref_Some _ _ _ Ha), (deref_Some _ _ _ Hb). simpl.
  by apply Token_equals_exact.
Qed.

(** X3: [currencyEquals] is transitive on the currencies of a heap, tokens
    and native currencies alike. *)
Theorem currencyEquals_trans (h : list object) (la lb lc : loc) :
  is_Some (h !! la) → is_Some (h !! lb) → is_Some (h !! lc) →
  currencyEquals h la lb = Ok true → currencyEquals h lb lc = Ok true →
  currencyEquals h la lc = Ok true.
Proof.
  intros [oa Ha] [ob Hb] [oc Hc]. unfold currencyEquals.
  rewrite !(deref_Some _ _ _ Ha), !(deref_Some _ _ _ Hb), !(deref_Some _ _ _ Hc). simpl.
  destruct oa as [ca|ta], ob as [cb|tb], oc as [cc|tc]; simpl; try done.
  - intros [= ->%bool_decide_eq_true] [= ->%bool_decide_eq_true].
    by rewrite bool_decide_eq_true_2.
  - rewrite (Token_equals_exact _ _ _ _ _ Ha Hb), (Token_equals_exact _ _ _ _ _ Hb Hc),
      (Token_equals_exact _ _ _ _ _ Ha Hc).
    intros [= Hab%bool_decide_eq_true] [= Hbc%bool_decide_eq_true].
    f_equal. apply bool_decide_eq_true.
    destruct Hab as [-> ->], Hbc as [-> ->]. done.
Qed.

(** X4: [sortsBefore] is asymmetric: when [a.sortsBefore(b)] returns true,
    [b.sortsBefore(a)] returns false. *)
Theorem Token_sortsBefore_asym (h : list object) (la lb : loc) (a b : Token) :
  h !! la = Some (TokenObj a) → h !! lb = Some (TokenObj b) →
  Token_sortsBefore h la lb = Ok true →
  Token_sortsBefore h lb la = Ok false.
Proof.
  intros Ha Hb Hab.
  destruct (Token_sortsBefore_inv _ _ _ _ _ _ Ha Hb Hab) as (Hchain & Haddr & Hlt).
  rewrite (Token_sortsBefore_Ok _ _ _ _ _ Hb Ha) by done.
  f_equal. symmetry in Hlt.
  rewrite str_lt_flip, Hlt; [done|].
  intros Heq. symmetry in Heq. by apply (str_lt_neq _ _ Hlt).
Qed.

(** X5: [sortsBefore] is transitive: when [a.sortsBefore(b)] and
    [b.sortsBefore(c)] return true, [a.sortsBefore(c)] returns true, with no
    invariant failing. *)
Theorem Token_sortsBefore_trans (h : list object) (la lb lc : loc) (a b c : Token) :
  h !! la = Some (TokenObj a) → h !! lb = Some (TokenObj b) →
  h !! lc = Some (TokenObj c) →
  Token_sortsBefore h la lb = Ok true → Token_sortsBefore h lb lc = Ok true →
  Token_sortsBefore h la lc = Ok true.
Proof.
  intros Ha Hb Hc Hab Hbc.
  destruct (Token_sortsBefore_inv _ _ _ _ _ _ Ha Hb Hab) as (Hchab & _ & Hltab).
  destruct (Token_sortsBefore_inv _ _ _ _ _ _ Hb Hc Hbc) as (Hchbc & _ & Hltbc).
  symmetry in Hltab, Hltbc.
  pose proof (str_lt_trans _ _ _ Hltab Hltbc) as Hlt.
  rewrite (Token_sortsBefore_Ok _ _ _ _ _ Ha Hc); [by rewrite Hlt|congruence|].
  intros Heq. apply (str_lt_neq _ _ Hlt). by rewrite Heq.
Qed.

(** X6: Equal tokens are never ordered: when [a.equals(b)] returns true,
    [a.sortsBefore(b)] and [b.sortsBefore(a)] both fail with the ADDRESSES
    invariant. *)
Theorem Token_equals_not_sorted (h : list object) (la lb : loc) (a b : Token) :
  h !! la = Some (TokenObj a) → h !! lb = Some (TokenObj b) →
  Token_equals h la lb = Ok true →
  Token_sortsBefore h la lb = Err (InvariantFailed "ADDRESSES") ∧
  Token_sortsBefore h lb la = Err (InvariantFailed "ADDRESSES").
Proof.
  intros Ha Hb. rewrite (Token_equals_exact _ _ _ _ _ Ha Hb).
  intros [= [Hchain Haddr]%bool_decide_eq_true].
  unfold Token_sortsBefore, invariant.
  rewrite (deref_Token_Some _ _ _ Ha), (deref_Token_Some _ _ _ Hb). simpl.
  rewrite (bool_decide_eq_true_2 _ Hchain), (bool_decide_eq_true_2 _ Haddr).
  rewrite (bool_decide_eq_true_2 _ (eq_sym Hchain)), (bool_decide_eq_true_2 _ (eq_sym Haddr)).
  done.
Qed.

(** * Further properties of the constructor and the fetcher *)

Section Construction.
Context `{Deps}.

(** Running the constructor, case by case. *)
Lemma Token_new_run c a d s n w :
  Token_new c a d s n w =
    match Currency_new d s n, validateAndParseAddress a with
    | Ok super, Ok parsed =>
        (Ok (List.length (heap w)),
         mkWorld (heap w ++ [TokenObj (mkToken super c parsed)])%list
                 (TOKEN_DECIMALS_CACHE w) (calls w))
    | Ok _, Err e => (Err e, w)
    | Err e, _ => (Err e, w)
    end.
Proof.
  unfold Token_new, mbind, M_bind, lift.
  destruct (Currency_new d s n); [|done].
  by destruct (validateAndParseAddress a).
Qed.

Lemma Currency_new_inv d s n super :
  Currency_new d s n = Ok super → super = mkCurrency d s n.
Proof.
  unfold Currency_new, invariant.
  destruct (bool_decide (0 ≤ d ≤ 255)%Z); simpl; [|done]. by intros [= <-].
Qed.

(** X7: A construction that returns gives a reference that was not in use,
    leaves every existing object in place, and stores the chain id, the
    decimals, symbol and name as given and, as the address, the output of
    [validateAndParseAddress] rather than the argument. *)
Theorem Token_new_fresh (c : ChainId) (a : string) (d : Z) (s n : option string)
    (w w' : World) (l : loc) :
  Token_new c a d s n w = (Ok l, w') →
  heap w !! l = None ∧
  (∀ l' o, heap w !! l' = Some o → heap w' !! l' = Some o) ∧
  ∃ parsed, validateAndParseAddress a = Ok parsed ∧
            heap w' !! l = Some (TokenObj (mkToken (mkCurrency d s n) c parsed)).
Proof.
  rewrite Token_new_run.
  destruct (Currency_new d s n) as [super|e] eqn:Hsuper; [|done].
  destruct (validateAndParseAddress a) as [parsed|e]; [|done].
  intros [= <- <-]. simpl. apply Currency_new_inv in Hsuper as ->.
  split; [by apply lookup_ge_None_2|]. split.
  - intros l' o Hl'. by apply lookup_app_l_Some.
  - exists parsed. split; [done|]. by apply list_lookup_middle.
Qed.

(** A construction that fails changes nothing. *)
Lemma Token_new_failure (c : ChainId) (a : string) (d : Z) (s n : option string)
    (w w' : World) (e : Error) :
  Token_new c a d s n w = (Err e, w') → w' = w.
Proof.
  rewrite Token_new_run.
  destruct (Currency_new d s n); [|by intros [= _ <-]].
  destruct (validateAndParseAddress a); [done|by intros [= _ <-]].
Qed.

(** X8: Two constructions with the same chain id and the same address
    argument give two different references to equal tokens, whatever the
    decimals, symbols and names. *)
Theorem Token_new_twice_equal (c : ChainId) (a : string) (d1 d2 : Z)
    (s1 n1 s2 n2 : option string) (w w1 w2 : World) (l1 l2 : loc) :
  Token_new c a d1 s1 n1 w = (Ok l1, w1) →
  Token_new c a d2 s2 n2 w1 = (Ok l2, w2) →
  l1 ≠ l2 ∧
  Token_equals (heap w2) l1 l2 = Ok true ∧
  currencyEquals (heap w2) l1 l2 = Ok true.
Proof.
  rewrite !Token_new_run.
  destruct (Currency_new d1 s1 n1) as [c1|]; [|done].
  destruct (Currency_new d2 s2 n2) as [c2|]; [|by destruct (validateAndParseAddress a)].
  destruct (validateAndParseAddress a) as [parsed|]; [|done].
  intros [= <- <-] [= <- <-]. simpl. rewrite length_app. simpl.
  assert (H1 : ((heap w ++ [TokenObj (mkToken c1 c parsed)]) ++
                [TokenObj (mkToken c2 c parsed)])%list !! List.length (heap w)
               = Some (TokenObj (mkToken c1 c parsed))).
  { apply lookup_app_l_Some. by apply list_lookup_middle. }
  assert (H2 : ((heap w ++ [TokenObj (mkToken c1 c parsed)]) ++
                [TokenObj (mkToken c2 c parsed)])%list !! (List.length (heap w) + 1)
               = Some (TokenObj (mkToken c2 c parsed))).
  { apply list_lookup_middle. rewrite length_app. simpl. lia. }
  split; [lia|].
  unfold currencyEquals. rewrite (deref_Some _ _ _ H1), (deref_Some _ _ _ H2). simpl.
  rewrite (Token_equals_exact _ _ _ _ _ H1 H2). simpl.
  by rewrite bool_decide_eq_true_2.
Qed.

End Construction.

Section CacheAndCalls.
Context `{Deps}.

Lemma cache_after_here cache chain addr d :
  cache_lookup (cache_after cache chain addr d) chain addr = Some d.
Proof.
  unfold cache_lookup, cache_after. rewrite lookup_insert_eq. simpl.
  by rewrite lookup_insert_eq.
Qed.

Lemma cache_after_other cache chain addr d chain' addr' :
  (chain', addr') ≠ (chain, addr) →
  cache_lookup (cache_after cache chain addr d) chain' addr'
    = cache_lookup cache chain' addr'.
Proof.
  intros Hne. unfold cache_lookup, cache_after.
  destruct (decide (chain' = chain)) as [->|Hc].
  - rewrite lookup_insert_eq. simpl.
    rewrite lookup_insert_ne by congruence.
    by destruct (cache !! chain).
  - by rewrite lookup_insert_ne.
Qed.

(** [fetchTokenData] when the cache has no entry. *)
Lemma fetchTokenData_miss w chain addr provider symbol name :
  cache_lookup (TOKEN_DECIMALS_CACHE w) chain addr = None →
  fetchTokenData chain addr provider symbol name w =
    match erc20_decimals provider addr with
    | Err e => (Err e, log_call (CallDecimals addr) w)
    | Ok d =>
        Token_new chain addr d symbol name
          (mkWorld (heap w) (cache_after (TOKEN_DECIMALS_CACHE w) chain addr d)
                   (calls w ++ [CallDecimals addr])%list)
    end.
Proof.
  intros Hmiss. unfold fetchTokenData. unfold mbind at 1, M_bind at 1, get_cache.
  rewrite Hmiss.
  unfold mbind, M_bind, mret, M_ret, call_decimals, get_cache, set_cache.
  by destruct (erc20_decimals provider addr).
Qed.

(** [fetchTokenData] when the cache has an entry. *)
Lemma fetchTokenData_hit w chain addr provider symbol name d :
  cache_lookup (TOKEN_DECIMALS_CACHE w) chain addr = Some d →
  fetchTokenData chain addr provider symbol name w
    = Token_new chain addr d symbol name w.
Proof.
  intros Hhit. unfold fetchTokenData. unfold mbind at 1, M_bind at 1, get_cache.
  rewrite Hhit. unfold mbind, M_bind, mret, M_ret.
  by destruct (Token_new chain addr d symbol name w) as [[] ?].
Qed.

End CacheAndCalls.

Section FetchTokenData.
Context `{Deps}.

Lemma Token_new_heap c a d s n w :
  ∃ new, heap (Token_new c a d s n w).2 = (heap w ++ new)%list ∧ (List.length new ≤ 1)%nat.
Proof.
  rewrite Token_new_run.
  destruct (Currency_new d s n);
    [|exists []; split; [by rewrite app_nil_r|simpl; lia]].
  destruct (validateAndParseAddress a);
    [|exists []; split; [by rewrite app_nil_r|simpl; lia]].
  eexists [_]. split; [reflexivity|simpl; lia].
Qed.

(** X9: On a cache miss that the provider answers with [d], exactly one
    decimals call is logged and the cache maps (chainId, address) to [d],
    whether or not the token can then be built: with decimals in 0-255 an
    accepted address gives the token with decimals [d], and a rejected
    address gives the constructor's error with the heap unchanged and the
    cache entry already written. *)
Theorem fetchTokenData_miss_answered (w : World) (chain : ChainId) (addr : string)
    (provider : Provider) (symbol name : option string) (d : Z) :
  cache_lookup (TOKEN_DECIMALS_CACHE w) chain addr = None →
  erc20_decimals provider addr = Ok d →
  let out := fetchTokenData chain addr provider symbol name w in
  calls out.2 = (calls w ++ [CallDecimals addr])%list ∧
  cache_lookup (TOKEN_DECIMALS_CACHE out.2) chain addr = Some d ∧
  ((0 ≤ d ≤ 255)%Z → ∀ parsed, validateAndParseAddress addr = Ok parsed →
     ∃ l, out.1 = Ok l ∧
          heap out.2 !! l = Some (TokenObj (mkToken (mkCurrency d symbol name) chain parsed))) ∧
  ((0 ≤ d ≤ 255)%Z → ∀ e, validateAndParseAddress addr = Err e →
     out.1 = Err e ∧ heap out.2 = heap w).
Proof.
  intros Hmiss Hd out. subst out.
  rewrite (fetchTokenData_miss _ _ _ _ _ _ Hmiss), Hd.
  match goal with |- context [Token_new ?c ?a ?d ?s ?n ?w1] =>
    destruct (Token_new_quiet c a d s n w1) as [Hcalls Hcache] end.
  rewrite Hcalls, Hcache. simpl.
  split; [done|]. split; [apply cache_after_here|]. split.
  - intros Hrange parsed Hparsed.
    rewrite (Token_new_Ok _ _ _ _ _ parsed _ Hrange Hparsed). simpl.
    eexists. split; [reflexivity|]. by apply list_lookup_middle.
  - intros Hrange e He. rewrite Token_new_run.
    unfold Currency_new, invariant. rewrite (bool_decide_eq_true_2 _ Hrange). simpl.
    by rewrite He.
Qed.

(** X10: On a cache miss where the decimals call fails, the provider's error
    reaches the caller as it is; the call is logged, nothing is allocated and
    the cache is not written. *)
Theorem fetchTokenData_miss_rejected (w : World) (chain : ChainId) (addr : string)
    (provider : Provider) (symbol name : option string) (e : Error) :
  cache_lookup (TOKEN_DECIMALS_CACHE w) chain addr = None →
  erc20_decimals provider addr = Err e →
  fetchTokenData chain addr provider symbol name w =
    (Err e, mkWorld (heap w) (TOKEN_DECIMALS_CACHE w) (calls w ++ [CallDecimals addr])%list).
Proof.
  intros Hmiss He. by rewrite (fetchTokenData_miss _ _ _ _ _ _ Hmiss), He.
Qed.

(** X11: [fetchTokenData] never overwrites or removes a cache entry: every
    (chainId, address) that had decimals before the call has the same
    decimals after it, whatever the call did. *)
Theorem fetchTokenData_cache_stable (w : World) (chain : ChainId) (addr : string)
    (provider : Provider) (symbol name : option string)
    (chain' : ChainId) (addr' : string) (d' : Z) :
  cache_lookup (TOKEN_DECIMALS_CACHE w) chain' addr' = Some d' →
  cache_lookup
    (TOKEN_DECIMALS_CACHE (fetchTokenData chain addr provider symbol name w).2)
    chain' addr' = Some d'.
Proof.
  intros Hold.
  destruct (cache_lookup (TOKEN_DECIMALS_CACHE w) chain addr) as [d|] eqn:Hc.
  - rewrite (fetchTokenData_hit _ _ _ _ _ _ _ Hc).
    by destruct (Token_new_quiet chain addr d symbol name w) as [_ ->].
  - rewrite (fetchTokenData_miss _ _ _ _ _ _ Hc).
    destruct (erc20_decimals provider addr) as [d|e]; [|done].
    match goal with |- context [Token_new ?c ?a ?d ?s ?n ?w1] =>
      destruct (Token_new_quiet c a d s n w1) as [_ ->] end.
    simpl. rewrite cache_after_other; [done|].
    intros [= -> ->]. congruence.
Qed.

(** X12: Fetching the same token twice asks the provider once. After a miss
    that the provider answered with [d], a second call for the same
    (chainId, address), through any provider and with any symbol and name,
    logs no further call and returns a second reference to an equal token
    with the same decimals. *)
Theorem fetchTokenData_twice (w : World) (chain : ChainId) (addr : string)
    (provider provider' : Provider) (symbol name symbol' name' : option string)
    (d : Z) (parsed : string) :
  cache_lookup (TOKEN_DECIMALS_CACHE w) chain addr = None →
  erc20_decimals provider addr = Ok d →
  (0 ≤ d ≤ 255)%Z →
  validateAndParseAddress addr = Ok parsed →
  let out1 := fetchTokenData chain addr provider symbol name w in
  let out2 := fetchTokenData chain addr provider' symbol' name' out1.2 in
  calls out2.2 = (calls w ++ [CallDecimals addr])%list ∧
  ∃ l1 l2 t1 t2,
    out1.1 = Ok l1 ∧ out2.1 = Ok l2 ∧ l1 ≠ l2 ∧
    heap out2.2 !! l1 = Some (TokenObj t1) ∧ heap out2.2 !! l2 = Some (TokenObj t2) ∧
    decimals (currency t1) = d ∧ decimals (currency t2) = d ∧
    Token_equals (heap out2.2) l1 l2 = Ok true.
Proof.
  intros Hmiss Hd Hrange Hparsed out1 out2. subst out1 out2.
  rewrite (fetchTokenData_miss _ _ _ _ _ _ Hmiss), Hd.
  rewrite (Token_new_Ok _ _ _ _ _ parsed _ Hrange Hparsed). simpl.
  rewrite (fetchTokenData_hit _ _ _ _ _ _ d) by apply cache_after_here.
  rewrite (Token_new_Ok _ _ _ _ _ parsed _ Hrange Hparsed). simpl.
  split; [done|].
  set (t1 := mkToken (mkCurrency d symbol name) chain parsed).
  set (t2 := mkToken (mkCurrency d symbol' name') chain parsed).
  assert (H1 : ((heap w ++ [TokenObj t1]) ++ [TokenObj t2])%list !! List.length (heap w)
               = Some (TokenObj t1)).
  { apply lookup_app_l_Some. by apply list_lookup_middle. }
  assert (H2 : ((heap w ++ [TokenObj t1]) ++ [TokenObj t2])%list
                 !! List.length (heap w ++ [TokenObj t1])%list
               = Some (TokenObj t2)).
  { by apply list_lookup_middle. }
  exists (List.length (heap w)), (List.length (heap w ++ [TokenObj t1])%list), t1, t2.
  repeat split; try done.
  - rewrite length_app. simpl. lia.
  - rewrite (Token_equals_exact _ _ _ _ _ H1 H2). by rewrite bool_decide_eq_true_2.
Qed.

(** X13: [fetchTokenData] only ever appends to the heap, at most one object,
    so every reference held before the call still points to the same object;
    and if the addresses of all tokens were outputs of
    [validateAndParseAddress] before, they are after. *)
Theorem fetchTokenData_heap_grows (w : World) (chain : ChainId) (addr : string)
    (provider : Provider) (symbol name : option string) :
  let out := fetchTokenData chain addr provider symbol name w in
  (∃ new, heap out.2 = (heap w ++ new)%list ∧ (List.length new ≤ 1)%nat) ∧
  (∀ l o, heap w !! l = Some o → heap out.2 !! l = Some o) ∧
  (heap_validated (heap w) → heap_validated (heap out.2)).
Proof.
  intros out.
  assert (Hgrow : ∃ new, heap out.2 = (heap w ++ new)%list ∧ (List.length new ≤ 1)%nat).
  { subst out.
    destruct (cache_lookup (TOKEN_DECIMALS_CACHE w) chain addr) as [d|] eqn:Hc.
    - rewrite (fetchTokenData_hit _ _ _ _ _ _ _ Hc). apply Token_new_heap.
    - rewrite (fetchTokenData_miss _ _ _ _ _ _ Hc).
      destruct (erc20_decimals provider addr) as [d|e].
      + match goal with |- context [Token_new ?c ?a ?d ?s ?n ?w1] =>
          apply (Token_new_heap c a d s n w1) end.
      + exists []. split; [by rewrite app_nil_r|simpl; lia]. }
  split; [done|]. split.
  - destruct Hgrow as (new & -> & _). intros l o Hl. by apply lookup_app_l_Some.
  - apply fetchTokenData_preserves.
Qed.

End FetchTokenData.

Section FetchPairData.
Context `{Deps}.




End FetchPairData.

Section Order.
Context `{Deps}.

(** X16: With checksummed addresses, two tokens of one chain stand in exactly
    one of three relations: they are equal and cannot be ordered, or the
    first sorts before the second, or the second before the first. *)
Theorem Token_order_trichotomy (h : list object) (la lb : loc) (a b : Token) :
  checksummed → heap_validated h →
  h !! la = Some (TokenObj a) → h !! lb = Some (TokenObj b) →
  chainId a = chainId b →
  (Token_equals h la lb = Ok true ∧
   Token_sortsBefore h la lb = Err (InvariantFailed "ADDRESSES") ∧
   Token_sortsBefore h lb la = Err (InvariantFailed "ADDRESSES")) ∨
  (Token_equals h la lb = Ok false ∧
   Token_sortsBefore h la lb = Ok true ∧ Token_sortsBefore h lb la = Ok false) ∨
  (Token_equals h la lb = Ok false ∧
   Token_sortsBefore h la lb = Ok false ∧ Token_sortsBefore h lb la = Ok true).
Proof.
  intros Hck Hval Ha Hb Hchain.
  rewrite (Token_equals_exact _ _ _ _ _ Ha Hb).
  destruct (decide (address a = address b)) as [Haddr|Haddr].
  - left. rewrite bool_decide_eq_true_2 by done. split; [done|].
    unfold Token_sortsBefore, invariant.
    rewrite (deref_Token_Some _ _ _ Ha), (deref_Token_Some _ _ _ Hb). simpl.
    rewrite (bool_decide_eq_true_2 _ Hchain), (bool_decide_eq_true_2 _ Haddr).
    rewrite (bool_decide_eq_true_2 _ (eq_sym Hchain)),
      (bool_decide_eq_true_2 _ (eq_sym Haddr)).
    done.
  - right. rewrite bool_decide_eq_false_2 by (intros [_ ?]; done).
    rewrite (Token_sortsBefore_Ok _ _ _ _ _ Ha Hb Hchain Haddr).
    rewrite (Token_sortsBefore_Ok _ _ _ _ _ Hb Ha) by done.
    rewrite (str_lt_flip (toLowerCase (address b)) (toLowerCase (address a)))
      by (intros Hlow; by apply (lower_address_distinct _ _ _ _ _ Hck Hval Ha Hb Haddr)).
    destruct (str_lt (toLowerCase (address a)) (toLowerCase (address b)));
      simpl; [left|right]; done.
Qed.

End Order.

Section ModuleLoad.
Context `{Deps}.

Lemma Token_new_18_run c a s n w :
  Token_new c a 18 s n w =
    match validateAndParseAddress a with
    | Ok parsed =>
        (Ok (List.length (heap w)),
         mkWorld (heap w ++ [TokenObj (mkToken (mkCurrency 18 s n) c parsed)])%list
                 (TOKEN_DECIMALS_CACHE w) (calls w))
    | Err e => (Err e, w)
    end.
Proof. by rewrite Token_new_run. Qed.

(** X17: The token module loads exactly when [validateAndParseAddress]
    accepts each of the six address literals; one rejected literal makes the
    whole load fail. Loaded or not, it makes no live call and leaves the
    decimals cache alone. *)
Theorem token_module_loads_iff (w : World) :
  (is_Ok (token_module w).1 ↔
   Forall (λ s, is_Ok (validateAndParseAddress s)) constant_addresses) ∧
  calls (token_module w).2 = calls w ∧
  TOKEN_DECIMALS_CACHE (token_module w).2 = TOKEN_DECIMALS_CACHE w.
Proof.
  destruct (token_module w) as [r w'] eqn:Hrun. simpl.
  unfold token_module in Hrun. unfold constant_addresses, is_Ok.
  repeat
    (unfold mbind at 1, M_bind at 1 in Hrun; rewrite Token_new_18_run in Hrun;
     match type of Hrun with context [validateAndParseAddress ?lit] =>
       destruct (validateAndParseAddress lit) as [?|?] eqn:?
     end;
     [|injection Hrun as <- <-; split; [|done]; split;
        [by intros [? ?]
        |rewrite !Forall_cons; intros Hall;
         repeat (destruct Hall as [[? ?] Hall]; try congruence)]]).
  unfold mret, M_ret in Hrun. injection Hrun as <- <-. simpl.
  split; [|done]. split; [|by eexists].
  intros _. repeat (apply Forall_cons; split; [by eexists|]). apply Forall_nil_2.
Qed.

End ModuleLoad.

(** ** The reference instance *)

Lemma lower_ascii_idem (c : ascii) : lower_ascii (lower_ascii c) = lower_ascii c.
Proof. destruct c as [[] [] [] [] [] [] [] []]; reflexivity. Qed.

Lemma toLowerCase_idem (s : string) : toLowerCase (toLowerCase s) = toLowerCase s.
Proof.
  induction s as [|c s IH]; simpl; [reflexivity|].
  by rewrite lower_ascii_idem, IH.
Qed.

Lemma sample_validate_lower s a : Sample.validate s = Ok a → toLowerCase a = a.
Proof.
  unfold Sample.validate. destruct (Sample.is_address s); [|done].
  intros [= <-]. apply toLowerCase_idem.
Qed.

Lemma sample_checksummed : @checksummed Sample.deps.
Proof.
  intros s1 s2 a1 a2 H1 H2 Hlow.
  apply sample_validate_lower in H1, H2. congruence.
Qed.

Lemma sample_heap_validated : @heap_validated Sample.deps (heap Sample.loaded.2).
Proof. apply (token_module_preserves Sample.world0), heap_validated_nil. Qed.

(** ** The theorems at concrete inputs *)

#[local] Existing Instance Sample.deps.

Lemma Token_equals_case_insensitive_witness :
  ∃ r, Token_equals (heap Sample.loaded.2) 4 5 = Ok r ∧
       (r = true ↔
        chainId Sample.hope = chainId Sample.hope_p ∧
        toLowerCase (address Sample.hope) = toLowerCase (address Sample.hope_p)).
Proof.
  apply (@Token_equals_case_insensitive Sample.deps (heap Sample.loaded.2) 4 5
           Sample.hope Sample.hope_p sample_checksummed sample_heap_validated);
    reflexivity.
Defined.

Lemma Token_sortsBefore_spec_witness :
  Token_sortsBefore (heap Sample.loaded.2) 0 2 = Ok true.
Proof.
  refine (proj2 (proj2 (Token_sortsBefore_spec (heap Sample.loaded.2) 0 2
                          Sample.wmatic Sample.weth _ _)) _ _);
    [reflexivity | reflexivity | reflexivity | discriminate].
Defined.

Lemma Token_sortsBefore_flip_witness :
  ∃ r, Token_sortsBefore (heap Sample.loaded.2) 0 2 = Ok r ∧
       Token_sortsBefore (heap Sample.loaded.2) 2 0 = Ok (negb r).
Proof.
  apply (@Token_sortsBefore_flip Sample.deps (heap Sample.loaded.2) 0 2
           Sample.wmatic Sample.weth sample_checksummed sample_heap_validated);
    [reflexivity | reflexivity | reflexivity | discriminate].
Defined.

Lemma currencyEquals_mixed_and_native_witness :
  currencyEquals Sample.heap_with_native 0 6 = Ok false ∧
  currencyEquals Sample.heap_with_native 6 6 = Ok true.
Proof.
  split.
  - refine (proj1 (currencyEquals_mixed_and_native Sample.heap_with_native 0 6
                     (TokenObj Sample.wmatic) (CurrencyObj Sample.native) _ _) _);
      [reflexivity | reflexivity | discriminate].
  - refine (proj2 (currencyEquals_mixed_and_native Sample.heap_with_native 6 6
                     (CurrencyObj Sample.native) (CurrencyObj Sample.native) _ _) _ _);
      reflexivity.
Defined.

Lemma currencyEquals_refl_sym_witness :
  currencyEquals Sample.heap_with_native 6 6 = Ok true ∧
  (∃ r, currencyEquals Sample.heap_with_native 6 0 = Ok r) ∧
  currencyEquals Sample.heap_with_native 6 0 = currencyEquals Sample.heap_with_native 0 6.
Proof.
  apply (currencyEquals_refl_sym Sample.heap_with_native 6 0); eexists; reflexivity.
Defined.

Lemma fetchPairData_chain_mismatch_witness :
  fetchPairData 2 3 Sample.provider None None Sample.loaded.2
    = (Err (InvariantFailed "CHAIN_ID"), Sample.loaded.2).
Proof.
  apply (@fetchPairData_chain_mismatch Sample.deps Sample.loaded.2 2 3
           Sample.weth Sample.wbnb);
    [reflexivity | reflexivity | discriminate].
Defined.

Lemma fetchPairData_lookup_failure_witness :
  ∃ msg,
    (fetchPairData 0 2 Sample.provider (Some 30%Z) None Sample.loaded.2).1
      = Err (JsError msg) ∧
    msg = reserves_error_message Sample.pool_30_20 30 20 ∧
    contains msg Sample.pool_30_20 ∧ contains msg "30" ∧ contains msg "20".
Proof.
  apply (@fetchPairData_lookup_failure Sample.deps Sample.loaded.2 0 2
           Sample.wmatic Sample.weth Sample.provider (Some 30%Z) None
           Sample.pool_30_20 (Rejected "call revert exception"));
    reflexivity.
Defined.

Lemma fetchTokenData_cached_witness :
  calls (fetchTokenData MATIC "0xE0B7927c4aF23765Cb51314A0E0521A9645F0E2A"
           Sample.provider None None Sample.world0).2 = [] ∧
  ∃ l t,
    (fetchTokenData MATIC "0xE0B7927c4aF23765Cb51314A0E0521A9645F0E2A"
       Sample.provider None None Sample.world0).1 = Ok l ∧
    heap (fetchTokenData MATIC "0xE0B7927c4aF23765Cb51314A0E0521A9645F0E2A"
            Sample.provider None None Sample.world0).2 !! l = Some (TokenObj t) ∧
    decimals (currency t) = 9%Z.
Proof.
  destruct (@fetchTokenData_cached Sample.deps Sample.world0 MATIC
              "0xE0B7927c4aF23765Cb51314A0E0521A9645F0E2A" Sample.provider None None
              9%Z "0xe0b7927c4af23765cb51314a0e0521a9645f0e2a")
    as ((l & t & Hl & Ht & Hd & _) & Hcalls & _); [reflexivity | lia | reflexivity |].
  split; [exact Hcalls|]. by exists l, t.
Defined.

Lemma fetchPairData_order_independent_witness :
  ∃ reserveA reserveB,
    (fetchPairData 0 2 Sample.provider None None Sample.loaded.2).1 =
      (amountA ← Sample.amount_new (heap Sample.loaded.2) 0 reserveA;
       amountB ← Sample.amount_new (heap Sample.loaded.2) 2 reserveB;
       Sample.pair_new (heap Sample.loaded.2) amountA amountB) ∧
    (fetchPairData 2 0 Sample.provider None None Sample.loaded.2).1 =
      (amountB ← Sample.amount_new (heap Sample.loaded.2) 2 reserveB;
       amountA ← Sample.amount_new (heap Sample.loaded.2) 0 reserveA;
       Sample.pair_new (heap Sample.loaded.2) amountB amountA) ∧
    ((Token_sortsBefore (heap Sample.loaded.2) 0 2 = Ok true ∧
      reserveA = 1000%Z ∧ reserveB = 7%Z) ∨
     (Token_sortsBefore (heap Sample.loaded.2) 2 0 = Ok true ∧
      reserveB = 1000%Z ∧ reserveA = 7%Z)).
Proof.
  apply (@fetchPairData_order_independent Sample.deps Sample.loaded.2 0 2
           Sample.wmatic Sample.weth Sample.provider None None
           Sample.pool_50_20 Sample.pool_50_20 1000%Z 7%Z
           sample_checksummed sample_heap_validated);
    [reflexivity | reflexivity | reflexivity | discriminate
    | reflexivity | reflexivity | reflexivity | reflexivity].
Defined.

Lemma token_constants_chainId_witness :
  ∃ ex,
    (@token_module Sample.deps Sample.world0).1 = Ok ex ∧
    (∀ k l, WMATIC ex !! k = Some l ∨ WETH ex !! k = Some l ∨ BNB ex !! k = Some l →
            ∃ t, heap Sample.loaded.2 !! l = Some (TokenObj t) ∧ chainId t = k) ∧
    (∃ l t, HOPE ex !! BSC = Some l ∧
            heap Sample.loaded.2 !! l = Some (TokenObj t) ∧
            chainId t = MATIC ∧ chainId t ≠ BSC).
Proof.
  apply (@token_constants_chainId Sample.deps Sample.world0).
  repeat constructor; eexists; reflexivity.
Defined.

(** ** The further properties at concrete inputs *)

Lemma Token_equals_equivalence_witness :
  Token_equals (heap Sample.loaded.2) 4 4 = Ok true ∧
  Token_equals (heap Sample.loaded.2) 4 5 = Token_equals (heap Sample.loaded.2) 5 4 ∧
  (Token_equals (heap Sample.loaded.2) 4 5 = Ok true →
   Token_equals (heap Sample.loaded.2) 5 4 = Ok true →
   Token_equals (heap Sample.loaded.2) 4 4 = Ok true).
Proof.
  apply (Token_equals_equivalence (heap Sample.loaded.2) 4 5 4
           Sample.hope Sample.hope_p Sample.hope); reflexivity.
Defined.

Lemma currencyEquals_tokens_witness :
  currencyEquals (heap Sample.loaded.2) 0 2 =
    Ok (bool_decide (chainId Sample.wmatic = chainId Sample.weth ∧
                     address Sample.wmatic = address Sample.weth)).
Proof.
  apply (currencyEquals_tokens (heap Sample.loaded.2) 0 2 Sample.wmatic Sample.weth);
    reflexivity.
Defined.

Lemma currencyEquals_trans_witness :
  currencyEquals Sample.heap_with_native 4 4 = Ok true.
Proof.
  apply (currencyEquals_trans Sample.heap_with_native 4 5 4);
    first [reflexivity | eexists; reflexivity].
Defined.

Lemma Token_sortsBefore_asym_witness :
  Token_sortsBefore (heap Sample.loaded.2) 2 0 = Ok false.
Proof.
  apply (Token_sortsBefore_asym (heap Sample.loaded.2) 0 2 Sample.wmatic Sample.weth);
    reflexivity.
Defined.

Lemma Token_sortsBefore_trans_witness :
  Token_sortsBefore (heap Sample.loaded.2) 0 4 = Ok true.
Proof.
  apply (Token_sortsBefore_trans (heap Sample.loaded.2) 0 2 4
           Sample.wmatic Sample.weth Sample.hope); reflexivity.
Defined.

Lemma Token_equals_not_sorted_witness :
  Token_sortsBefore (heap Sample.loaded.2) 4 5 = Err (InvariantFailed "ADDRESSES") ∧
  Token_sortsBefore (heap Sample.loaded.2) 5 4 = Err (InvariantFailed "ADDRESSES").
Proof.
  apply (Token_equals_not_sorted (heap Sample.loaded.2) 4 5 Sample.hope Sample.hope_p);
    reflexivity.
Defined.

Lemma Token_new_fresh_witness :
  ∃ parsed,
    Sample.validate "0x7ceB23fD6bC0adD59E62ac25578270cFf1b9f619" = Ok parsed ∧
    heap (Token_new MATIC "0x7ceB23fD6bC0adD59E62ac25578270cFf1b9f619" 18
            (Some "WETH") None Sample.loaded.2).2 !! 6
      = Some (TokenObj (mkToken (mkCurrency 18 (Some "WETH") None) MATIC parsed)).
Proof.
  refine (proj2 (proj2 (@Token_new_fresh Sample.deps MATIC
            "0x7ceB23fD6bC0adD59E62ac25578270cFf1b9f619" 18 (Some "WETH") None
            Sample.loaded.2 _ 6 _))).
  reflexivity.
Defined.

Lemma Token_new_twice_equal_witness :
  0 ≠ 1 ∧
  Token_equals
    (heap (Token_new MATIC "0x7ceB23fD6bC0adD59E62ac25578270cFf1b9f619" 6 None None
             (Token_new MATIC "0x7ceB23fD6bC0adD59E62ac25578270cFf1b9f619" 18
                (Some "WETH") None Sample.world0).2).2) 0 1 = Ok true ∧
  currencyEquals
    (heap (Token_new MATIC "0x7ceB23fD6bC0adD59E62ac25578270cFf1b9f619" 6 None None
             (Token_new MATIC "0x7ceB23fD6bC0adD59E62ac25578270cFf1b9f619" 18
                (Some "WETH") None Sample.world0).2).2) 0 1 = Ok true.
Proof.
  apply (@Token_new_twice_equal Sample.deps MATIC
           "0x7ceB23fD6bC0adD59E62ac25578270cFf1b9f619" 18 6 (Some "WETH") None None None
           Sample.world0
           (Token_new MATIC "0x7ceB23fD6bC0adD59E62ac25578270cFf1b9f619" 18
              (Some "WETH") None Sample.world0).2);
    reflexivity.
Defined.

Lemma fetchTokenData_miss_answered_witness :
  calls (fetchTokenData MATIC "0x7ceB23fD6bC0adD59E62ac25578270cFf1b9f619"
           Sample.provider None None Sample.world0).2
    = [CallDecimals "0x7ceB23fD6bC0adD59E62ac25578270cFf1b9f619"] ∧
  cache_lookup
    (TOKEN_DECIMALS_CACHE
       (fetchTokenData MATIC "0x7ceB23fD6bC0adD59E62ac25578270cFf1b9f619"
          Sample.provider None None Sample.world0).2)
    MATIC "0x7ceB23fD6bC0adD59E62ac25578270cFf1b9f619" = Some 18%Z.
Proof.
  destruct (@fetchTokenData_miss_answered Sample.deps Sample.world0 MATIC
              "0x7ceB23fD6bC0adD59E62ac25578270cFf1b9f619" Sample.provider None None 18%Z)
    as (Hcalls & Hcache & _); [reflexivity | reflexivity |].
  split; [exact Hcalls | exact Hcache].
Defined.

Lemma fetchTokenData_miss_rejected_witness :
  fetchTokenData MATIC "0x0d500b1d8e8ef31e21c99d1db9a6444d3adf1270"
    Sample.provider None None Sample.world0 =
  (Err (Rejected "call revert exception"),
   mkWorld [] TOKEN_DECIMALS_CACHE_init
     [CallDecimals "0x0d500b1d8e8ef31e21c99d1db9a6444d3adf1270"]).
Proof.
  apply (@fetchTokenData_miss_rejected Sample.deps Sample.world0 MATIC
           "0x0d500b1d8e8ef31e21c99d1db9a6444d3adf1270" Sample.provider None None);
    reflexivity.
Defined.

Lemma fetchTokenData_cache_stable_witness :
  cache_lookup
    (TOKEN_DECIMALS_CACHE
       (fetchTokenData MATIC "0x7ceB23fD6bC0adD59E62ac25578270cFf1b9f619"
          Sample.provider None None Sample.world0).2)
    MATIC "0xE0B7927c4aF23765Cb51314A0E0521A9645F0E2A" = Some 9%Z.
Proof.
  apply (@fetchTokenData_cache_stable Sample.deps Sample.world0 MATIC
           "0x7ceB23fD6bC0adD59E62ac25578270cFf1b9f619" Sample.provider None None
           MATIC "0xE0B7927c4aF23765Cb51314A0E0521A9645F0E2A" 9%Z).
  reflexivity.
Defined.

Lemma fetchTokenData_twice_witness :
  calls
    (fetchTokenData MATIC "0x7ceB23fD6bC0adD59E62ac25578270cFf1b9f619"
       Sample.provider (Some "WETH") None
       (fetchTokenData MATIC "0x7ceB23fD6bC0adD59E62ac25578270cFf1b9f619"
          Sample.provider None None Sample.world0).2).2
    = [CallDecimals "0x7ceB23fD6bC0adD59E62ac25578270cFf1b9f619"].
Proof.
  refine (proj1 (@fetchTokenData_twice Sample.deps Sample.world0 MATIC
            "0x7ceB23fD6bC0adD59E62ac25578270cFf1b9f619" Sample.provider Sample.provider
            None None (Some "WETH") None 18%Z
            "0x7ceb23fd6bc0add59e62ac25578270cff1b9f619" _ _ _ _));
    [reflexivity | reflexivity | lia | reflexivity].
Defined.



Lemma Token_order_trichotomy_witness :
  (Token_equals (heap Sample.loaded.2) 0 2 = Ok true ∧
   Token_sortsBefore (heap Sample.loaded.2) 0 2 = Err (InvariantFailed "ADDRESSES") ∧
   Token_sortsBefore (heap Sample.loaded.2) 2 0 = Err (InvariantFailed "ADDRESSES")) ∨
  (Token_equals (heap Sample.loaded.2) 0 2 = Ok false ∧
   Token_sortsBefore (heap Sample.loaded.2) 0 2 = Ok true ∧
   Token_sortsBefore (heap Sample.loaded.2) 2 0 = Ok false) ∨
  (Token_equals (heap Sample.loaded.2) 0 2 = Ok false ∧
   Token_sortsBefore (heap Sample.loaded.2) 0 2 = Ok false ∧
   Token_sortsBefore (heap Sample.loaded.2) 2 0 = Ok true).
Proof.
  apply (@Token_order_trichotomy Sample.deps (heap Sample.loaded.2) 0 2
           Sample.wmatic Sample.weth sample_checksummed sample_heap_validated);
    reflexivity.
Defined.
